(** * cc_simple_server: the task REST API over a SQLite table

    A shallow embedding of [src/cc_simple_server/server.py].  The four
    handlers ([create_task], [get_tasks], [update_task], [delete_task]) are
    written statement by statement in a state-and-exception monad over a
    [World] that holds the database file, the open connections, the
    schedule of engine failures and the trace of engine calls. *)

From Stdlib Require Import ZArith String List Lia DecimalString.
From stdpp Require Import base option list gmap strings.

Local Open Scope string_scope.
Local Open Scope list_scope.
Local Open Scope Z_scope.

(** ** cc_simple_server.models *)

(** Modelled from the spec: [cc_simple_server/models.py] is not part of the
    sources at hand.  The data model gives a task a required text [title],
    an optional text [description] and a boolean [completed]; the read model
    adds the integer [id]. *)
Module TaskCreate.
Record t := mk { title : string; description : option string; completed : bool }.
End TaskCreate.

Module TaskRead.
Record t := mk { id : Z; title : string; description : option string; completed : bool }.
End TaskRead.

(** ** cc_simple_server.database: the table and the engine *)

(** Modelled from the spec: [cc_simple_server/database.py] ([init_db],
    [get_db_connection]) is not part of the sources at hand.  The persisted
    layout is one table
    [tasks(id INTEGER PRIMARY KEY AUTOINCREMENT, title TEXT, description TEXT, completed BOOLEAN)].
    A row is the tuple the cursor yields: [task[0]] .. [task[3]]. *)
Record Row := mkRow { col0 : Z; col1 : string; col2 : option string; col3 : bool }.

(** The database file: the rows of [tasks] in rowid order, and the
    AUTOINCREMENT counter (the largest rowid handed out so far). *)
Record Database := mkDatabase { tasks : list Row; sqlite_sequence : Z }.

(** Modelled from the spec: [init_db()] leaves a store whose [tasks] table
    exists; on a fresh file it is empty. *)
Definition init_db : Database := {| tasks := []; sqlite_sequence := 0 |}.

Definition ids (db : Database) : list Z := col0 <$> tasks db.

Definition max_rowid (db : Database) : Z := foldr Z.max 0 (ids db).

(** AUTOINCREMENT: one more than the largest rowid that ever existed. *)
Definition next_rowid (db : Database) : Z :=
  Z.max (sqlite_sequence db) (max_rowid db) + 1.

(** The five statements the handlers send, with their bound parameters. *)
Inductive Sql :=
| INSERT_INTO_tasks (title : string) (description : option string) (completed : bool)
| SELECT_FROM_tasks
| SELECT_FROM_tasks_WHERE_id (task_id : Z)
| UPDATE_tasks_SET_WHERE_id (title : string) (description : option string)
                            (completed : bool) (task_id : Z)
| DELETE_FROM_tasks_WHERE_id (task_id : Z).

Definition is_write (q : Sql) : bool :=
  match q with
  | SELECT_FROM_tasks | SELECT_FROM_tasks_WHERE_id _ => false
  | _ => true
  end.

(** A Python [int] is unbounded; an SQLite INTEGER is a signed 64-bit
    number.  [task_id: int] comes from the path as the client wrote it. *)
Definition INT64_MAX : Z := 9223372036854775807.

Definition int64 (z : Z) : Prop := - INT64_MAX - 1 ≤ z ≤ INT64_MAX.

(** Whether the parameters of a statement can be bound: the texts and the
    boolean always can, a [task_id] only when it fits an INTEGER. *)
Definition sql_bindable (q : Sql) : bool :=
  match q with
  | SELECT_FROM_tasks_WHERE_id task_id
  | UPDATE_tasks_SET_WHERE_id _ _ _ task_id
  | DELETE_FROM_tasks_WHERE_id task_id => bool_decide (int64 task_id)
  | INSERT_INTO_tasks _ _ _ | SELECT_FROM_tasks => true
  end.

Definition set_columns (t : string) (d : option string) (c : bool) (task_id : Z)
    (r : Row) : Row :=
  if decide (col0 r = task_id) then mkRow (col0 r) t d c else r.

(** What a statement does to the table. *)
Definition sql_update (q : Sql) (db : Database) : Database :=
  match q with
  | INSERT_INTO_tasks t d c =>
      {| tasks := tasks db ++ [mkRow (next_rowid db) t d c];
         sqlite_sequence := next_rowid db |}
  | UPDATE_tasks_SET_WHERE_id t d c task_id =>
      {| tasks := set_columns t d c task_id <$> tasks db;
         sqlite_sequence := sqlite_sequence db |}
  | DELETE_FROM_tasks_WHERE_id task_id =>
      {| tasks := filter (fun r => col0 r ≠ task_id) (tasks db);
         sqlite_sequence := sqlite_sequence db |}
  | SELECT_FROM_tasks | SELECT_FROM_tasks_WHERE_id _ => db
  end.

(** The result set a statement leaves in the cursor. *)
Definition sql_rows (q : Sql) (db : Database) : list Row :=
  match q with
  | SELECT_FROM_tasks => tasks db
  | SELECT_FROM_tasks_WHERE_id task_id =>
      filter (fun r => col0 r = task_id) (tasks db)
  | _ => []
  end.

(** ** The world the handlers run in *)

Inductive Event :=
| EvConnect (conn : nat)
| EvExecute (conn : nat) (q : Sql)
| EvCommit (conn : nat)
| EvClose (conn : nat).

Inductive Exn :=
| HTTPException (status_code : Z) (detail : string)
| OperationalError      (* sqlite3: any I/O, lock or commit failure *)
| ProgrammingError      (* sqlite3: use of a closed connection *)
| OverflowError         (* sqlite3: a Python int too large for an INTEGER *)
| ValidationError.      (* pydantic: a field of the wrong type *)

(** [disk] is the committed content of the database file.  [conns] maps each
    open connection to its pending transaction ([None]: none open; the
    connection reads the file).  [faults] is the schedule of the engine: the
    head is consumed by each engine call and [true] makes that call raise;
    the empty schedule never raises.  [trace] records the engine calls. *)
Record World := mkWorld {
  disk : Database;
  conns : gmap nat (option Database);
  next_conn : nat;
  faults : list bool;
  trace : list Event
}.

Definition init_world : World :=
  {| disk := init_db; conns := ∅; next_conn := 0%nat; faults := []; trace := [] |}.

Inductive Result (A : Type) :=
| Return (a : A)
| Raise (e : Exn).
Arguments Return {A} a.
Arguments Raise {A} e.

Definition M (A : Type) : Type := World → Result A * World.

#[global] Instance M_ret : MRet M := fun A a w => (Return a, w).
#[global] Instance M_bind : MBind M := fun A B f m w =>
  match m w with
  | (Return a, w') => f a w'
  | (Raise e, w') => (Raise e, w')
  end.

Definition raise {A} (e : Exn) : M A := fun w => (Raise e, w).

(** Every call into the engine consults the schedule first. *)
Definition engine_call : M unit := fun w =>
  match faults w with
  | true :: fs =>
      (Raise OperationalError, mkWorld (disk w) (conns w) (next_conn w) fs (trace w))
  | false :: fs =>
      (Return tt, mkWorld (disk w) (conns w) (next_conn w) fs (trace w))
  | [] => (Return tt, w)
  end.

(** [sqlite3.connect]: a fresh handle with no transaction open. *)
Definition get_db_connection : M nat :=
  engine_call;;
  ((fun w => let conn := next_conn w in
      (Return conn,
       mkWorld (disk w) (<[conn := None]> (conns w)) (S conn) (faults w)
               (trace w ++ [EvConnect conn]))) : M nat).

Record Cursor := mkCursor { connection : nat; rows : list Row; lastrowid : option Z }.

(** [conn.cursor()] *)
Definition cursor (conn : nat) : Cursor :=
  {| connection := conn; rows := []; lastrowid := None |}.

(** [cursor.execute(sql, params)]: the parameters are bound first, and a
    [task_id] that does not fit an INTEGER raises [OverflowError] before the
    statement reaches the engine; a write opens a transaction on the
    connection when none is open and works on its copy of the table. *)
Definition execute (cur : Cursor) (q : Sql) : M Cursor :=
  if sql_bindable q then
  engine_call;;
  ((fun w =>
     match conns w !! connection cur with
     | None => (Raise ProgrammingError, w)
     | Some txn =>
         let db := default (disk w) txn in
         let txn' := if is_write q then Some (sql_update q db) else txn in
         let cur' :=
           {| connection := connection cur;
              rows := sql_rows q db;
              lastrowid := match q with
                           | INSERT_INTO_tasks _ _ _ => Some (next_rowid db)
                           | _ => lastrowid cur
                           end |} in
         (Return cur',
          mkWorld (disk w) (<[connection cur := txn']> (conns w)) (next_conn w)
                  (faults w) (trace w ++ [EvExecute (connection cur) q]))
     end) : M Cursor)
  else raise OverflowError.

Definition fetchall (cur : Cursor) : list Row := rows cur.

Definition fetchone (cur : Cursor) : option Row := head (rows cur).

(** [conn.commit()]: the pending transaction, if any, becomes the file. *)
Definition commit (conn : nat) : M unit :=
  engine_call;;
  ((fun w =>
     match conns w !! conn with
     | None => (Raise ProgrammingError, w)
     | Some txn =>
         (Return tt,
          mkWorld (default (disk w) txn) (<[conn := None]> (conns w)) (next_conn w)
                  (faults w) (trace w ++ [EvCommit conn]))
     end) : M unit).

(** [conn.close()]: the handle is released; what was not committed is lost. *)
Definition close (conn : nat) : M unit := fun w =>
  (Return tt,
   mkWorld (disk w) (delete conn (conns w)) (next_conn w) (faults w)
           (trace w ++ [EvClose conn])).

(** ** server.py *)

#[local] Unset Elimination Schemes.
Inductive Json :=
| JNull
| JBool (b : bool)
| JInt (z : Z)
| JString (s : string)
| JArray (l : list Json)
| JObject (fields : list (string * Json)).
#[local] Set Elimination Schemes.

(** [str(n)] for a Python int. *)
Definition str (n : Z) : string := NilZero.string_of_int (Z.to_int n).

Definition read_root : M Json :=
  mret (JObject [("message", JString "Welcome to the Cloud Computing!")]).

Definition create_task (task_data : TaskCreate.t) : M TaskRead.t :=
  conn ← get_db_connection;
  let cursor := cursor conn in
  cursor ← execute cursor
    (INSERT_INTO_tasks (TaskCreate.title task_data) (TaskCreate.description task_data)
                       (TaskCreate.completed task_data));
  commit conn;;
  let task_id := lastrowid cursor in
  close conn;;
  match task_id with
  | Some task_id =>
      mret (TaskRead.mk task_id (TaskCreate.title task_data)
              (TaskCreate.description task_data) (TaskCreate.completed task_data))
  | None => raise ValidationError
  end.

Definition get_tasks : M (list TaskRead.t) :=
  conn ← get_db_connection;
  let cursor := cursor conn in
  cursor ← execute cursor SELECT_FROM_tasks;
  let tasks := fetchall cursor in
  close conn;;
  mret ((fun task => TaskRead.mk (col0 task) (col1 task) (col2 task) (col3 task)) <$> tasks).

Definition update_task (task_id : Z) (task_data : TaskCreate.t) : M TaskRead.t :=
  conn ← get_db_connection;
  let cursor := cursor conn in
  cursor ← execute cursor (SELECT_FROM_tasks_WHERE_id task_id);
  let existing_task := fetchone cursor in
  match existing_task with
  | None =>
      close conn;;
      raise (HTTPException 404 "Task not found")
  | Some _ =>
      cursor ← execute cursor
        (UPDATE_tasks_SET_WHERE_id (TaskCreate.title task_data)
           (TaskCreate.description task_data) (TaskCreate.completed task_data) task_id);
      commit conn;;
      close conn;;
      mret (TaskRead.mk task_id (TaskCreate.title task_data)
              (TaskCreate.description task_data) (TaskCreate.completed task_data))
  end.

Definition delete_task (task_id : Z) : M Json :=
  conn ← get_db_connection;
  let cursor := cursor conn in
  cursor ← execute cursor (SELECT_FROM_tasks_WHERE_id task_id);
  let existing_task := fetchone cursor in
  match existing_task with
  | None =>
      close conn;;
      raise (HTTPException 404 "Task not found")
  | Some _ =>
      cursor ← execute cursor (DELETE_FROM_tasks_WHERE_id task_id);
      commit conn;;
      close conn;;
      mret (JObject [("message", JString ("Task " +:+ str task_id +:+ " deleted successfully"))])
  end.

(** ** The routes of [app] *)

Inductive Body :=
| JSONResponse (content : Json)
| PlainTextResponse (content : string).

Record Response := mkResponse { status_code : Z; body : Body }.

Definition HTTP_200_OK : Z := 200.

(** [response_model=TaskRead] *)
Definition TaskRead_json (task : TaskRead.t) : Json :=
  JObject [("id", JInt (TaskRead.id task));
           ("title", JString (TaskRead.title task));
           ("description", from_option JString JNull (TaskRead.description task));
           ("completed", JBool (TaskRead.completed task))].

(** What the framework sends for an endpoint: the returned value under the
    route's status code, an [HTTPException] as its status with a [detail]
    body, any other exception as a 500. *)
Definition respond {A} (status : Z) (response_model : A → Json) (endpoint : M A)
    : World → Response * World :=
  fun w =>
    match endpoint w with
    | (Return a, w') => (mkResponse status (JSONResponse (response_model a)), w')
    | (Raise (HTTPException status_code detail), w') =>
        (mkResponse status_code (JSONResponse (JObject [("detail", JString detail)])), w')
    | (Raise _, w') => (mkResponse 500 (PlainTextResponse "Internal Server Error"), w')
    end.

Inductive Request :=
| GET_root
| POST_tasks (task_data : TaskCreate.t)
| GET_tasks
| PUT_tasks (task_id : Z) (task_data : TaskCreate.t)
| DELETE_tasks (task_id : Z).

Definition app (req : Request) : World → Response * World :=
  match req with
  | GET_root => respond 200 (fun j => j) read_root
  | POST_tasks task_data => respond HTTP_200_OK TaskRead_json (create_task task_data)
  | GET_tasks => respond 200 (fun l => JArray (TaskRead_json <$> l)) get_tasks
  | PUT_tasks task_id task_data => respond 200 TaskRead_json (update_task task_id task_data)
  | DELETE_tasks task_id => respond 200 (fun j => j) (delete_task task_id)
  end.

(** The server handling a sequence of requests, one after the other. *)
Definition serve (reqs : list Request) (w : World) : World :=
  foldl (fun w req => (app req w).2) w reqs.

(** ** Well-formed stores *)

(** Ids are unique and none exceeds the AUTOINCREMENT counter. *)
Definition store_ok (db : Database) : Prop :=
  NoDup (ids db) ∧ Forall (fun i => i ≤ sqlite_sequence db) (ids db).

(** An id that was handed out and whose row is gone. *)
Definition gone (i : Z) (db : Database) : Prop :=
  (i ∉ ids db) ∧ (i ≤ sqlite_sequence db).

(** Connection [h] was left open by a call that took [w] to [w']: it is
    still in the table of open connections and the call never closed it. *)
Definition still_open (h : nat) (w w' : World) : Prop :=
  is_Some (conns w' !! h) ∧ ∃ evs, trace w' = trace w ++ evs ∧ EvClose h ∉ evs.



Definition is_put (req : Request) : bool :=
  match req with PUT_tasks _ _ => true | _ => false end.

(** The requests that send no write statement. *)
Definition is_get (req : Request) : bool :=
  match req with GET_root | GET_tasks => true | _ => false end.

(** The write statements of [create_task], [update_task] and [delete_task]. *)
Definition insert_of (td : TaskCreate.t) : Sql :=
  INSERT_INTO_tasks (TaskCreate.title td) (TaskCreate.description td)
                    (TaskCreate.completed td).

Definition update_of (i : Z) (td : TaskCreate.t) : Sql :=
  UPDATE_tasks_SET_WHERE_id (TaskCreate.title td) (TaskCreate.description td)
                            (TaskCreate.completed td) i.

Definition delete_of (i : Z) : Sql := DELETE_FROM_tasks_WHERE_id i.

Definition select_of (i : Z) : Sql := SELECT_FROM_tasks_WHERE_id i.

(** The statement a request may commit ([SELECT] when it writes nothing). *)
Definition statement_of (req : Request) : Sql :=
  match req with
  | POST_tasks td => insert_of td
  | PUT_tasks i td => update_of i td
  | DELETE_tasks i => delete_of i
  | GET_root | GET_tasks => SELECT_FROM_tasks
  end.

(** What a request commits when nothing fails in the engine: its statement,
    when the parameters of the statement can be bound. *)
Definition committed (req : Request) (db : Database) : Database :=
  if sql_bindable (statement_of req) then sql_update (statement_of req) db else db.

(** The task a handler builds from the path id and the request body. *)
Definition task_from (i : Z) (td : TaskCreate.t) : TaskRead.t :=
  TaskRead.mk i (TaskCreate.title td) (TaskCreate.description td) (TaskCreate.completed td).

Definition deleted_message (i : Z) : Json :=
  JObject [("message", JString ("Task " +:+ str i +:+ " deleted successfully"))].

Definition targets (i : Z) (req : Request) : bool :=
  match req with
  | PUT_tasks j _ | DELETE_tasks j => bool_decide (j = i)
  | _ => false
  end.

Definition row_of (t : TaskRead.t) : Row :=
  mkRow (TaskRead.id t) (TaskRead.title t) (TaskRead.description t) (TaskRead.completed t).

Definition task_of (r : Row) : TaskRead.t :=
  TaskRead.mk (col0 r) (col1 r) (col2 r) (col3 r).

Definition NotFound : Exn := HTTPException 404 "Task not found".

(** The scenario of the specification: a task and its later replacement. *)
Definition td_milk : TaskCreate.t := TaskCreate.mk "Buy milk" (Some "2%") false.
Definition td_whole : TaskCreate.t := TaskCreate.mk "Buy milk" (Some "whole") true.

(** A fresh store whose engine fails at the second call. *)
Definition w_fault : World :=
  {| disk := init_db; conns := ∅; next_conn := 0%nat; faults := [false; true]; trace := [] |}.

(** A fresh store whose engine fails at the third call (the commit of a
    create). *)
Definition w_commit_fault : World :=
  {| disk := init_db; conns := ∅; next_conn := 0%nat; faults := [false; false; true];
     trace := [] |}.

(** The first integer that no INTEGER column can hold. *)
Definition too_large : Z := 9223372036854775808.

(** The world after [create_task td_milk] on the fresh store. *)
Definition w_milk : World := (create_task td_milk init_world).2.

(** * The engine: what the statements do to ids and rows *)

Section Engine.
Implicit Types (db : Database) (i : Z) (r : Row).

Lemma max_rowid_ge db i : i ∈ ids db → i ≤ max_rowid db.
Proof.
  unfold max_rowid. induction (ids db) as [|j l IH]; intros Hin.
  - inversion Hin.
  - apply elem_of_cons in Hin as [->|Hin]; cbn; [lia | specialize (IH Hin); lia].
Qed.

Lemma next_rowid_fresh db : next_rowid db ∉ ids db.
Proof. intros Hin%max_rowid_ge. unfold next_rowid in Hin. lia. Qed.

Lemma next_rowid_above db : sqlite_sequence db < next_rowid db.
Proof. unfold next_rowid. lia. Qed.

Lemma ids_insert db t d c :
  ids (sql_update (INSERT_INTO_tasks t d c) db) = ids db ++ [next_rowid db].
Proof. unfold ids. cbn. by rewrite fmap_app. Qed.

Lemma col0_set_columns t d c i r : col0 (set_columns t d c i r) = col0 r.
Proof. unfold set_columns. by case_decide. Qed.

Lemma ids_update db t d c i :
  ids (sql_update (UPDATE_tasks_SET_WHERE_id t d c i) db) = ids db.
Proof.
  unfold ids. cbn. rewrite <- list_fmap_compose.
  apply list_fmap_ext. intros _ r _. apply col0_set_columns.
Qed.

Lemma ids_delete db i :
  ids (sql_update (DELETE_FROM_tasks_WHERE_id i) db) = filter (fun j => j ≠ i) (ids db).
Proof.
  unfold ids. cbn. induction (tasks db) as [|r l IH]; [done|].
  rewrite fmap_cons, !filter_cons. case_decide; cbn; by rewrite IH.
Qed.

Lemma sqlite_sequence_mono q db : sqlite_sequence db ≤ sqlite_sequence (sql_update q db).
Proof. destruct q; cbn; try lia. pose proof (next_rowid_above db). lia. Qed.

Lemma store_ok_init : store_ok init_db.
Proof. split; [apply NoDup_nil_2 | apply Forall_nil_2]. Qed.

Lemma store_ok_sql_update q db : store_ok db → store_ok (sql_update q db).
Proof.
  intros [Hnd Hle]. destruct q as [t d c| |j|t d c j|j]; try done.
  - unfold store_ok; rewrite ids_insert. split.
    + apply NoDup_app. split_and!; [done| |apply NoDup_singleton].
      intros i Hi ->%list_elem_of_singleton. by apply (next_rowid_fresh db).
    + cbn. apply Forall_app. split; [|by apply Forall_singleton].
      eapply Forall_impl; [exact Hle|]. cbn. intros i Hi.
      pose proof (next_rowid_above db). lia.
  - by unfold store_ok; rewrite ids_update.
  - unfold store_ok; rewrite ids_delete. split.
    + by apply NoDup_filter.
    + cbn. apply Forall_forall. intros k [_ Hk]%list_elem_of_filter.
      by eapply Forall_forall in Hle.
Qed.

Lemma gone_sql_update q db i : gone i db → gone i (sql_update q db).
Proof.
  intros [Hni Hle]. split; [|pose proof (sqlite_sequence_mono q db); lia].
  destruct q as [t d c| |j|t d c j|j]; try done.
  - rewrite ids_insert. intros [Hin| ->%list_elem_of_singleton]%elem_of_app; [done|].
    pose proof (next_rowid_above db). lia.
  - by rewrite ids_update.
  - rewrite ids_delete. intros [_ Hin]%list_elem_of_filter. done.
Qed.

Lemma gone_after_delete db i :
  store_ok db → i ∈ ids db → gone i (sql_update (DELETE_FROM_tasks_WHERE_id i) db).
Proof.
  intros [_ Hle] Hin. split.
  - rewrite ids_delete. intros [Hne _]%list_elem_of_filter. done.
  - cbn. by eapply Forall_forall in Hle.
Qed.

(** The row looked up by id is there exactly when the id is. *)
Lemma select_by_id_None db i :
  head (sql_rows (SELECT_FROM_tasks_WHERE_id i) db) = None ↔ i ∉ ids db.
Proof.
  unfold sql_rows, ids. induction (tasks db) as [|r l IH].
  - split; [intros _ H; inversion H | done].
  - rewrite filter_cons, fmap_cons, not_elem_of_cons. case_decide as Hr; cbn [head].
    + split; [done | intros [Hne _]; congruence].
    + rewrite IH. split; [intros ?; split; [congruence | done] | by intros [_ ?]].
Qed.

(** Rows of other ids are left as they are, in place. *)
Lemma others_update db t d c i :
  filter (fun r => col0 r ≠ i) (tasks (sql_update (UPDATE_tasks_SET_WHERE_id t d c i) db))
  = filter (fun r => col0 r ≠ i) (tasks db).
Proof.
  cbn. induction (tasks db) as [|r l IH]; [done|].
  rewrite fmap_cons, !filter_cons, col0_set_columns.
  case_decide as Hr; rewrite IH; [|done].
  unfold set_columns. by rewrite decide_False.
Qed.

Lemma others_delete db i :
  filter (fun r => col0 r ≠ i) (tasks (sql_update (DELETE_FROM_tasks_WHERE_id i) db))
  = filter (fun r => col0 r ≠ i) (tasks db).
Proof.
  cbn. induction (tasks db) as [|r l IH]; [done|].
  rewrite !filter_cons. case_decide as Hr; [|done].
  rewrite filter_cons, decide_True by done. by rewrite IH.
Qed.
End Engine.

(** * The handlers, run symbolically *)

Ltac run_step :=
  first
    [ progress cbn [sql_bindable default from_option disk conns next_conn faults trace connection rows lastrowid
                    is_write fst snd] in *
    | rewrite lookup_insert_eq in *
    | rewrite insert_insert_eq in *
    | rewrite delete_insert_eq in *
    | match goal with
      | |- context [match ?l with [] => _ | _ :: _ => _ end] =>
          is_var l; destruct l as [|[] ?]
      | |- context [match head ?l with Some _ => _ | None => _ end] =>
          let E := fresh "Hrow" in destruct (head l) eqn:E
      | |- context [bool_decide (int64 ?i)] =>
          let E := fresh "Hfit" in
          destruct (bool_decide (int64 i)) eqn:E;
          [apply bool_decide_eq_true in E | apply bool_decide_eq_false in E]
      end ].

Ltac run :=
  unfold get_db_connection, execute, commit, close, engine_call, raise,
         fetchone, fetchall, cursor, mbind, mret, M_bind, M_ret in *;
  repeat run_step.

Ltac outcome :=
  let H := fresh in
  intros H; inversion H; subst; clear H; cbn [disk conns next_conn faults trace].

Section Handlers.
Implicit Types (w : World) (td : TaskCreate.t) (i : Z) (e : Exn).

Lemma select_by_id_Some (db : Database) i r :
  head (filter (fun r => col0 r = i) (tasks db)) = Some r → i ∈ ids db.
Proof.
  intros Hr. destruct (decide (i ∈ ids db)) as [|Hn]; [done|].
  apply select_by_id_None in Hn. cbn in Hn. congruence.
Qed.

Lemma select_by_id_absent (db : Database) i :
  head (filter (fun r => col0 r = i) (tasks db)) = None → i ∉ ids db.
Proof. intros Hr. by apply select_by_id_None. Qed.

(** *** create_task *)

Lemma create_task_Return td w t w' :
  create_task td w = (Return t, w') →
  t = task_from (next_rowid (disk w)) td
  ∧ disk w' = sql_update (insert_of td) (disk w)
  ∧ conns w' = delete (next_conn w) (conns w)
  ∧ trace w' = trace w ++ [EvConnect (next_conn w); EvExecute (next_conn w) (insert_of td);
                           EvCommit (next_conn w); EvClose (next_conn w)].
Proof.
  destruct w as [d c n f tr]. unfold create_task. run; outcome.
  all: rewrite <- ?app_assoc; done.
Qed.

Lemma create_task_Raise td w e w' :
  create_task td w = (Raise e, w') → e = OperationalError ∧ disk w' = disk w.
Proof. destruct w as [d c n f tr]. unfold create_task. run; outcome; done. Qed.

Lemma create_task_healthy td w :
  faults w = [] →
  ∃ w', create_task td w = (Return (task_from (next_rowid (disk w)) td), w')
        ∧ faults w' = [].
Proof.
  destruct w as [d c n f tr]. cbn. intros ->. unfold create_task. run. eauto.
Qed.

(** *** get_tasks *)

Lemma get_tasks_Return w l w' :
  get_tasks w = (Return l, w') →
  l = task_of <$> tasks (disk w)
  ∧ disk w' = disk w
  ∧ conns w' = delete (next_conn w) (conns w)
  ∧ trace w' = trace w ++ [EvConnect (next_conn w);
                           EvExecute (next_conn w) SELECT_FROM_tasks;
                           EvClose (next_conn w)].
Proof.
  destruct w as [d c n f tr]. unfold get_tasks. run; outcome.
  all: rewrite <- ?app_assoc; done.
Qed.

Lemma get_tasks_disk w : disk (get_tasks w).2 = disk w.
Proof. destruct w as [d c n f tr]. unfold get_tasks. run; done. Qed.

Lemma get_tasks_healthy w :
  faults w = [] →
  ∃ w', get_tasks w = (Return (task_of <$> tasks (disk w)), w') ∧ faults w' = [].
Proof. destruct w as [d c n f tr]. cbn. intros ->. unfold get_tasks. run. eauto. Qed.

(** *** update_task *)

Lemma update_task_Return i td w t w' :
  update_task i td w = (Return t, w') →
  t = task_from i td
  ∧ i ∈ ids (disk w)
  ∧ disk w' = sql_update (update_of i td) (disk w)
  ∧ conns w' = delete (next_conn w) (conns w)
  ∧ trace w' = trace w ++ [EvConnect (next_conn w); EvExecute (next_conn w) (select_of i);
                           EvExecute (next_conn w) (update_of i td);
                           EvCommit (next_conn w); EvClose (next_conn w)].
Proof.
  destruct w as [d c n f tr]. unfold update_task. run; outcome.
  all: apply select_by_id_Some in Hrow.
  all: rewrite <- ?app_assoc; done.
Qed.

Lemma update_task_Raise i td w e w' :
  update_task i td w = (Raise e, w') →
  disk w' = disk w
  ∧ (e = OperationalError
     ∨ (e = NotFound ∧ (i ∉ ids (disk w))
        ∧ conns w' = delete (next_conn w) (conns w)
        ∧ trace w' = trace w ++ [EvConnect (next_conn w);
                                 EvExecute (next_conn w) (select_of i);
                                 EvClose (next_conn w)])
     ∨ (e = OverflowError ∧ ¬ int64 i)).
Proof.
  destruct w as [d c n f tr]. unfold update_task. run; outcome.
  all: try (split; [done | by left]).
  all: try (split; [done | by right; right]).
  all: apply select_by_id_absent in Hrow.
  all: split; [done | right; left]; rewrite <- ?app_assoc; done.
Qed.

Lemma update_task_healthy_present i td w :
  faults w = [] → int64 i → i ∈ ids (disk w) →
  ∃ w', update_task i td w = (Return (task_from i td), w') ∧ faults w' = [].
Proof.
  destruct w as [d c n f tr]. cbn. intros -> Hi Hin. unfold update_task.
  run; [eauto| |]; [|done]. apply select_by_id_absent in Hrow. done.
Qed.

Lemma update_task_healthy_absent i td w :
  faults w = [] → int64 i → i ∉ ids (disk w) →
  ∃ w', update_task i td w = (Raise NotFound, w') ∧ faults w' = [].
Proof.
  destruct w as [d c n f tr]. cbn. intros -> Hi Hin. unfold update_task.
  run; [|eauto|]; [|done]. apply select_by_id_Some in Hrow. done.
Qed.

(** *** delete_task *)

Lemma delete_task_Return i w j w' :
  delete_task i w = (Return j, w') →
  j = deleted_message i
  ∧ i ∈ ids (disk w)
  ∧ disk w' = sql_update (delete_of i) (disk w)
  ∧ conns w' = delete (next_conn w) (conns w)
  ∧ trace w' = trace w ++ [EvConnect (next_conn w); EvExecute (next_conn w) (select_of i);
                           EvExecute (next_conn w) (delete_of i);
                           EvCommit (next_conn w); EvClose (next_conn w)].
Proof.
  destruct w as [d c n f tr]. unfold delete_task. run; outcome.
  all: apply select_by_id_Some in Hrow.
  all: rewrite <- ?app_assoc; done.
Qed.

Lemma delete_task_Raise i w e w' :
  delete_task i w = (Raise e, w') →
  disk w' = disk w
  ∧ (e = OperationalError
     ∨ (e = NotFound ∧ (i ∉ ids (disk w))
        ∧ conns w' = delete (next_conn w) (conns w)
        ∧ trace w' = trace w ++ [EvConnect (next_conn w);
                                 EvExecute (next_conn w) (select_of i);
                                 EvClose (next_conn w)])
     ∨ (e = OverflowError ∧ ¬ int64 i)).
Proof.
  destruct w as [d c n f tr]. unfold delete_task. run; outcome.
  all: try (split; [done | by left]).
  all: try (split; [done | by right; right]).
  all: apply select_by_id_absent in Hrow.
  all: split; [done | right; left]; rewrite <- ?app_assoc; done.
Qed.

Lemma delete_task_healthy_present i w :
  faults w = [] → int64 i → i ∈ ids (disk w) →
  ∃ w', delete_task i w = (Return (deleted_message i), w') ∧ faults w' = [].
Proof.
  destruct w as [d c n f tr]. cbn. intros -> Hi Hin. unfold delete_task.
  run; [eauto| |]; [|done]. apply select_by_id_absent in Hrow. done.
Qed.

Lemma delete_task_healthy_absent i w :
  faults w = [] → int64 i → i ∉ ids (disk w) →
  ∃ w', delete_task i w = (Raise NotFound, w') ∧ faults w' = [].
Proof.
  destruct w as [d c n f tr]. cbn. intros -> Hi Hin. unfold delete_task.
  run; [|eauto|]; [|done]. apply select_by_id_Some in Hrow. done.
Qed.



(** *** A [task_id] that does not fit *)

(** The lookup of an id outside the INTEGER range raises before any row is
    read: the call ends there, with the file as it was and the connection
    it opened still open. *)
Lemma update_task_overflow i td w :
  ¬ int64 i → head (faults w) ≠ Some true →
  ∃ w', update_task i td w = (Raise OverflowError, w')
        ∧ disk w' = disk w ∧ faults w' = tail (faults w)
        ∧ still_open (next_conn w) w w'.
Proof.
  destruct w as [d c n f tr]. cbn. intros Hi Hf. unfold update_task.
  run; try done.
  all: eexists; split_and!; try reflexivity.
  all: unfold still_open; cbn [conns trace]; rewrite lookup_insert_eq.
  all: split; [by eexists | exists [EvConnect n]; split; [done|]].
  all: by intros [=]%list_elem_of_singleton.
Qed.

Lemma delete_task_overflow i w :
  ¬ int64 i → head (faults w) ≠ Some true →
  ∃ w', delete_task i w = (Raise OverflowError, w')
        ∧ disk w' = disk w ∧ faults w' = tail (faults w)
        ∧ still_open (next_conn w) w w'.
Proof.
  destruct w as [d c n f tr]. cbn. intros Hi Hf. unfold delete_task.
  run; try done.
  all: eexists; split_and!; try reflexivity.
  all: unfold still_open; cbn [conns trace]; rewrite lookup_insert_eq.
  all: split; [by eexists | exists [EvConnect n]; split; [done|]].
  all: by intros [=]%list_elem_of_singleton.
Qed.


(** *** The connection on the failure paths of the engine *)





End Handlers.

(** * The server *)

Section Server.
Implicit Types (w : World) (req : Request) (reqs : list Request) (i : Z).

Lemma respond_world {A} status (f : A → Json) (m : M A) w :
  (respond status f m w).2 = (m w).2.
Proof. unfold respond. destruct (m w) as [[a|[]] w']; done. Qed.

Lemma app_world req w :
  (app req w).2 =
  match req with
  | GET_root => w
  | POST_tasks td => (create_task td w).2
  | GET_tasks => (get_tasks w).2
  | PUT_tasks i td => (update_task i td w).2
  | DELETE_tasks i => (delete_task i w).2
  end.
Proof. destruct req; cbn [app]; by rewrite respond_world. Qed.

(** A request leaves the file as it was or commits its one statement. *)
Lemma app_disk req w :
  disk (app req w).2 = disk w
  ∨ disk (app req w).2 = sql_update (statement_of req) (disk w).
Proof.
  rewrite app_world. destruct req as [|td| |i td|i]; cbn [statement_of].
  - by left.
  - destruct (create_task td w) as [[t|e] w'] eqn:E.
    + right. by apply create_task_Return in E as (_ & ? & _).
    + left. by apply create_task_Raise in E as [_ ?].
  - left. apply get_tasks_disk.
  - destruct (update_task i td w) as [[t|e] w'] eqn:E.
    + right. by apply update_task_Return in E as (_ & _ & ? & _).
    + left. by apply update_task_Raise in E as [? _].
  - destruct (delete_task i w) as [[t|e] w'] eqn:E.
    + right. by apply delete_task_Return in E as (_ & _ & ? & _).
    + left. by apply delete_task_Raise in E as [? _].
Qed.

Lemma app_healthy req w : faults w = [] → faults (app req w).2 = [].
Proof.
  intros Hf. rewrite app_world. destruct req as [|td| |i td|i].
  - done.
  - by destruct (create_task_healthy td w Hf) as (w' & -> & ?).
  - by destruct (get_tasks_healthy w Hf) as (w' & -> & ?).
  - destruct (decide (int64 i)) as [Hfit|Hfit].
    + destruct (decide (i ∈ ids (disk w))) as [Hi|Hi].
      * by destruct (update_task_healthy_present i td w Hf Hfit Hi) as (w' & -> & ?).
      * by destruct (update_task_healthy_absent i td w Hf Hfit Hi) as (w' & -> & ?).
    + destruct (update_task_overflow i td w Hfit) as (w' & -> & _ & Hf' & _);
        [by rewrite Hf|]. cbn [snd]. by rewrite Hf', Hf.
  - destruct (decide (int64 i)) as [Hfit|Hfit].
    + destruct (decide (i ∈ ids (disk w))) as [Hi|Hi].
      * by destruct (delete_task_healthy_present i w Hf Hfit Hi) as (w' & -> & ?).
      * by destruct (delete_task_healthy_absent i w Hf Hfit Hi) as (w' & -> & ?).
    + destruct (delete_task_overflow i w Hfit) as (w' & -> & _ & Hf' & _);
        [by rewrite Hf|]. cbn [snd]. by rewrite Hf', Hf.
Qed.

(** Whatever holds of the file and is kept by every statement is kept by
    the server. *)
Lemma serve_invariant (P : Database → Prop) reqs w :
  (∀ req db, req ∈ reqs → P db → P (sql_update (statement_of req) db)) →
  P (disk w) → P (disk (serve reqs w)).
Proof.
  revert w. induction reqs as [|req reqs IH]; intros w Hstep Hw; [done|].
  cbn. apply IH.
  - intros req' db Hin. apply Hstep. by right.
  - destruct (app_disk req w) as [->| ->]; [done|]. apply Hstep; [by left | done].
Qed.

Lemma serve_store_ok reqs w : store_ok (disk w) → store_ok (disk (serve reqs w)).
Proof. apply serve_invariant. intros req db _. apply store_ok_sql_update. Qed.

Lemma serve_gone reqs w i : gone i (disk w) → gone i (disk (serve reqs w)).
Proof. apply serve_invariant. intros req db _. apply gone_sql_update. Qed.

End Server.

(** Closed decidable goals, by evaluation. *)
Ltac by_decide := apply (bool_decide_unpack _); vm_compute; exact I.

(** * Creation *)

(** C1: a create that returns hands back the id the engine assigned to the
    new row, an id that no persisted task had before and that exactly one
    persisted task, the new one, has afterwards; the other fields of the
    returned task are the input's. *)
Theorem create_task_assigned_id td w t w' :
  create_task td w = (Return t, w') →
  TaskRead.id t = next_rowid (disk w)
  ∧ (TaskRead.id t ∉ ids (disk w))
  ∧ TaskRead.title t = TaskCreate.title td
  ∧ TaskRead.description t = TaskCreate.description td
  ∧ TaskRead.completed t = TaskCreate.completed td
  ∧ tasks (disk w') = tasks (disk w) ++ [row_of t]
  ∧ (∀ r, r ∈ tasks (disk w') → col0 r = TaskRead.id t → r = row_of t).
Proof.
  intros (-> & Hd & _)%create_task_Return. cbn [task_from TaskRead.id TaskRead.title
    TaskRead.description TaskRead.completed]. split_and!; try done.
  - apply next_rowid_fresh.
  - by rewrite Hd.
  - rewrite Hd. cbn. intros r [Hr| ->%list_elem_of_singleton]%elem_of_app Hid; [|done].
    exfalso. apply (next_rowid_fresh (disk w)). rewrite <- Hid.
    by apply list_elem_of_fmap_2.
Qed.

Lemma create_task_assigned_id_witness :
  TaskRead.id (task_from 1 td_milk) = next_rowid (disk init_world)
  ∧ (TaskRead.id (task_from 1 td_milk) ∉ ids (disk init_world))
  ∧ TaskRead.title (task_from 1 td_milk) = TaskCreate.title td_milk
  ∧ TaskRead.description (task_from 1 td_milk) = TaskCreate.description td_milk
  ∧ TaskRead.completed (task_from 1 td_milk) = TaskCreate.completed td_milk
  ∧ tasks (disk w_milk) = tasks (disk init_world) ++ [row_of (task_from 1 td_milk)]
  ∧ (∀ r, r ∈ tasks (disk w_milk) → col0 r = TaskRead.id (task_from 1 td_milk) →
          r = row_of (task_from 1 td_milk)).
Proof. apply (create_task_assigned_id td_milk init_world). reflexivity. Defined.

(** * Absent ids *)

(** C2: the claim fails on the code at an id that does not fit an INTEGER.
    No task has the id 9223372036854775808, yet an update of it does not
    raise the 404: binding the id for the lookup raises OverflowError, and
    the PUT is answered with status 500.  The file is left as it was. *)
Theorem update_task_absent_overflow :
  (too_large ∉ ids (disk w_milk))
  ∧ (update_task too_large td_whole w_milk).1 = Raise OverflowError
  ∧ (app (PUT_tasks too_large td_whole) w_milk).1
    = mkResponse 500 (PlainTextResponse "Internal Server Error")
  ∧ disk (update_task too_large td_whole w_milk).2 = disk w_milk.
Proof. split_and!; [by_decide | reflexivity..]. Qed.

(** C3: the claim fails on the code at an id that does not fit an INTEGER.
    No task has the id 9223372036854775808, nor -9223372036854775809, yet a
    delete of either does not raise the 404: binding the id for the lookup
    raises OverflowError, and the DELETE is answered with status 500; so is
    it after a delete of id 1 has returned. *)
Theorem delete_task_absent_overflow :
  (too_large ∉ ids (disk w_milk))
  ∧ (delete_task too_large w_milk).1 = Raise OverflowError
  ∧ (delete_task (- too_large - 1) w_milk).1 = Raise OverflowError
  ∧ (app (DELETE_tasks too_large) w_milk).1
    = mkResponse 500 (PlainTextResponse "Internal Server Error")
  ∧ (delete_task too_large (delete_task 1 w_milk).2).1 = Raise OverflowError
  ∧ (update_task too_large td_whole (delete_task 1 w_milk).2).1 = Raise OverflowError.
Proof. split_and!; [by_decide | reflexivity..]. Qed.



(** X16: for an id that no persisted task has and that fits an INTEGER,
    neither delete nor update ever returns, and unless the engine itself
    fails each raises HTTPException 404 "Task not found"; and once a delete
    of an id has returned, no later sequence of requests brings a task with
    that id back, so every later delete or update of it is such a call on an
    absent id. *)
Theorem absent_id_not_found :
  (∀ w i td, i ∉ ids (disk w) →
     (∀ j, (delete_task i w).1 ≠ Return j)
     ∧ (∀ t, (update_task i td w).1 ≠ Return t)
     ∧ (faults w = [] → int64 i →
        (delete_task i w).1 = Raise (HTTPException 404 "Task not found")
        ∧ (update_task i td w).1 = Raise (HTTPException 404 "Task not found")))
  ∧ (∀ w i j w1 reqs, store_ok (disk w) → delete_task i w = (Return j, w1) →
     i ∉ ids (disk (serve reqs w1))).
Proof.
  split.
  - intros w i td Hi. split_and!.
    + intros j. destruct (delete_task i w) as [[j'|e] w'] eqn:E; [|done].
      by apply delete_task_Return in E as (_ & ? & _).
    + intros t. destruct (update_task i td w) as [[t'|e] w'] eqn:E; [|done].
      by apply update_task_Return in E as (_ & ? & _).
    + intros Hf Hfit.
      destruct (delete_task_healthy_absent i w Hf Hfit Hi) as (w1 & -> & _).
      by destruct (update_task_healthy_absent i td w Hf Hfit Hi) as (w2 & -> & _).
  - intros w i j w1 reqs Hok (_ & Hi & Hd & _)%delete_task_Return.
    apply (serve_gone reqs w1 i). rewrite Hd. by apply gone_after_delete.
Qed.

Lemma absent_id_not_found_witness :
  (1 ∉ ids (disk (serve [POST_tasks td_whole; PUT_tasks 1 td_milk; DELETE_tasks 1]
                        (delete_task 1 w_milk).2)))
  ∧ (delete_task 7 w_milk).1 = Raise (HTTPException 404 "Task not found")
  ∧ (update_task 7 td_whole w_milk).1 = Raise (HTTPException 404 "Task not found").
Proof.
  destruct absent_id_not_found as [Habsent Hdeleted]. split.
  - apply (Hdeleted w_milk 1 (deleted_message 1) (delete_task 1 w_milk).2).
    + split; by_decide.
    + reflexivity.
  - apply (Habsent w_milk 7 td_whole); [by_decide | reflexivity | by_decide].
Defined.

(** * Reading back *)

Section Listing.
Implicit Types (w : World) (t : TaskRead.t) (r : Row) (db : Database).

Lemma task_of_row_of t : task_of (row_of t) = t.
Proof. by destruct t. Qed.

Lemma row_unique db r r' :
  NoDup (ids db) → r ∈ tasks db → r' ∈ tasks db → col0 r = col0 r' → r = r'.
Proof.
  unfold ids. induction (tasks db) as [|x l IH]; [by intros _ ?%elem_of_nil|].
  rewrite fmap_cons, NoDup_cons. intros [Hx Hl].
  intros [->|Hr]%elem_of_cons [->|Hr']%elem_of_cons Heq; try done.
  - exfalso. apply Hx. rewrite Heq. by apply list_elem_of_fmap_2.
  - exfalso. apply Hx. rewrite <- Heq. by apply list_elem_of_fmap_2.
  - by apply IH.
Qed.

(** A statement that does not name the id of a row leaves that row. *)
Lemma row_kept req db r :
  targets (col0 r) req = false → r ∈ tasks db →
  r ∈ tasks (sql_update (statement_of req) db).
Proof.
  intros Ht Hr. destruct req as [|td| |j td|j]; cbn in *; try done.
  - apply elem_of_app. by left.
  - apply bool_decide_eq_false in Ht. apply list_elem_of_fmap. exists r.
    split; [|done]. unfold set_columns. rewrite decide_False; [done | congruence].
  - apply bool_decide_eq_false in Ht. apply list_elem_of_filter.
    split; [congruence | done].
Qed.
End Listing.

(** C4, as amended: after a create has returned a task with id i, every
    later listing that returns, with no update or delete of i among the
    requests in between, contains that task, and contains no other task
    with id i. *)
Theorem get_tasks_after_create td w t w1 reqs l w3 :
  store_ok (disk w) →
  create_task td w = (Return t, w1) →
  Forall (fun req => targets (TaskRead.id t) req = false) reqs →
  get_tasks (serve reqs w1) = (Return l, w3) →
  t ∈ l ∧ (∀ t', t' ∈ l → TaskRead.id t' = TaskRead.id t → t' = t).
Proof.
  intros Hok Hc Hreqs (-> & _)%get_tasks_Return.
  assert (Hok1 : store_ok (disk w1)).
  { apply create_task_Return in Hc as (_ & -> & _). by apply store_ok_sql_update. }
  assert (Hin1 : row_of t ∈ tasks (disk w1)).
  { apply create_task_Return in Hc as (-> & -> & _). cbn.
    apply elem_of_app. right. by apply list_elem_of_singleton. }
  assert (Hin : row_of t ∈ tasks (disk (serve reqs w1))).
  { apply (serve_invariant (fun db => row_of t ∈ tasks db)); [|done].
    intros req db Hreq Hdb. apply row_kept; [|done].
    by eapply Forall_forall in Hreqs. }
  split.
  - rewrite <- (task_of_row_of t). by apply list_elem_of_fmap_2.
  - intros t' (r & -> & Hr)%list_elem_of_fmap Hid.
    rewrite <- (task_of_row_of t). f_equal.
    apply (row_unique (disk (serve reqs w1))); try done.
    apply (serve_store_ok reqs w1 Hok1).
Qed.

Lemma get_tasks_after_create_witness :
  task_from 1 td_milk ∈ [task_from 1 td_milk; task_from 2 td_whole]
  ∧ (∀ t', t' ∈ [task_from 1 td_milk; task_from 2 td_whole] →
           TaskRead.id t' = TaskRead.id (task_from 1 td_milk) → t' = task_from 1 td_milk).
Proof.
  apply (get_tasks_after_create td_milk init_world (task_from 1 td_milk) w_milk
           [POST_tasks td_whole; PUT_tasks 2 td_whole; DELETE_tasks 3; GET_tasks] _
           (get_tasks (serve [POST_tasks td_whole; PUT_tasks 2 td_whole; DELETE_tasks 3;
                              GET_tasks] w_milk)).2).
  - apply store_ok_init.
  - reflexivity.
  - repeat constructor.
  - reflexivity.
Defined.

(** C4, as stated, fails: an update of i between the create and the listing
    is no delete of i, and the listing then shows the updated values, not
    the created ones. *)
Lemma get_tasks_after_create_counterexample :
  create_task td_milk init_world = (Return (task_from 1 td_milk), w_milk)
  ∧ Forall (fun req => req ≠ DELETE_tasks 1) [PUT_tasks 1 td_whole]
  ∧ (get_tasks (serve [PUT_tasks 1 td_whole] w_milk)).1 = Return [task_from 1 td_whole]
  ∧ (task_from 1 td_milk ∉ [task_from 1 td_whole]).
Proof.
  split_and!; [reflexivity | by repeat constructor | reflexivity |].
  intros [=]%list_elem_of_singleton.
Qed.

(** C5: create, then an update of the created id that returns, then a
    listing: the listing has the task with the updated values under that
    id, has no other task under that id, and so never shows the created
    values when they differ. *)
Theorem create_update_get_tasks td td' w t w1 t' w2 l w3 :
  create_task td w = (Return t, w1) →
  update_task (TaskRead.id t) td' w1 = (Return t', w2) →
  get_tasks w2 = (Return l, w3) →
  t' = task_from (TaskRead.id t) td'
  ∧ t' ∈ l
  ∧ (∀ x, x ∈ l → TaskRead.id x = TaskRead.id t → x = t')
  ∧ (t ≠ t' → t ∉ l).
Proof.
  intros _ (-> & Hi & Hd & _)%update_task_Return (-> & _)%get_tasks_Return.
  rewrite Hd. cbn [update_of sql_update tasks].
  assert (Huniq : ∀ x,
    x ∈ task_of <$> (set_columns (TaskCreate.title td') (TaskCreate.description td')
                       (TaskCreate.completed td') (TaskRead.id t) <$> tasks (disk w1)) →
    TaskRead.id x = TaskRead.id t → x = task_from (TaskRead.id t) td').
  { intros x (r & -> & (r0 & -> & Hr0)%list_elem_of_fmap)%list_elem_of_fmap.
    unfold set_columns. case_decide as Hc; cbn; [by rewrite Hc | done]. }
  split_and!; [done| |done|].
  - apply list_elem_of_fmap in Hi as (r & Hr & Hin).
    apply list_elem_of_fmap. exists (set_columns (TaskCreate.title td')
      (TaskCreate.description td') (TaskCreate.completed td') (TaskRead.id t) r).
    split; [|by apply list_elem_of_fmap_2].
    unfold set_columns. by rewrite decide_True, <- Hr.
  - intros Hne Hin. apply Hne. by apply Huniq.
Qed.

Lemma create_update_get_tasks_witness :
  task_from 1 td_whole = task_from (TaskRead.id (task_from 1 td_milk)) td_whole
  ∧ task_from 1 td_whole ∈ [task_from 1 td_whole]
  ∧ (∀ x, x ∈ [task_from 1 td_whole] → TaskRead.id x = TaskRead.id (task_from 1 td_milk) →
          x = task_from 1 td_whole)
  ∧ (task_from 1 td_milk ≠ task_from 1 td_whole → task_from 1 td_milk ∉ [task_from 1 td_whole]).
Proof.
  apply (create_update_get_tasks td_milk td_whole init_world (task_from 1 td_milk) w_milk
           (task_from 1 td_whole) (update_task 1 td_whole w_milk).2 _
           (get_tasks (update_task 1 td_whole w_milk).2).2); reflexivity.
Defined.

(** * Updating *)



(** C8: an update, whatever its outcome, leaves the ids of the table as they
    were, row by row, and the AUTOINCREMENT counter too; the task it returns
    carries the path id; and so does any sequence of PUT requests. *)
Theorem update_task_keeps_ids i td w :
  ids (disk (update_task i td w).2) = ids (disk w)
  ∧ sqlite_sequence (disk (update_task i td w).2) = sqlite_sequence (disk w)
  ∧ (∀ t w', update_task i td w = (Return t, w') → TaskRead.id t = i)
  ∧ (∀ reqs, forallb is_put reqs = true → ids (disk (serve reqs w)) = ids (disk w)).
Proof.
  assert (Hone : ∀ j td' w0, ids (disk (update_task j td' w0).2) = ids (disk w0)
            ∧ sqlite_sequence (disk (update_task j td' w0).2) = sqlite_sequence (disk w0)).
  { intros j td' w0. destruct (app_disk (PUT_tasks j td') w0) as [Hd|Hd];
      rewrite app_world in Hd; rewrite Hd; [done|].
    cbn [statement_of]. unfold update_of. by rewrite ids_update. }
  split_and!; [apply Hone | apply Hone | |].
  - by intros t w' (-> & _)%update_task_Return.
  - intros reqs. revert w. induction reqs as [|req reqs IH]; intros w Hput; [done|].
    cbn in Hput. apply andb_prop in Hput as [Hreq Hput].
    destruct req as [| | |j td'|]; try done.
    cbn [serve foldl]. fold (serve reqs (app (PUT_tasks j td') w).2).
    rewrite (IH _ Hput), app_world. apply Hone.
Qed.

Lemma update_task_keeps_ids_witness :
  TaskRead.id (task_from 1 td_whole) = 1
  ∧ ids (disk (serve [PUT_tasks 1 td_whole; PUT_tasks 5 td_milk] w_milk)) = ids (disk w_milk).
Proof.
  destruct (update_task_keeps_ids 1 td_whole w_milk) as (_ & _ & Hret & Hputs). split.
  - apply (Hret _ (update_task 1 td_whole w_milk).2). reflexivity.
  - apply Hputs. reflexivity.
Defined.

(** C10: an update or a delete of id i, whatever its outcome, leaves every
    row of another id in the table, unchanged and in the same order, and
    brings no row of another id in. *)
Theorem other_tasks_unchanged i td w :
  filter (fun r => col0 r ≠ i) (tasks (disk (update_task i td w).2))
    = filter (fun r => col0 r ≠ i) (tasks (disk w))
  ∧ filter (fun r => col0 r ≠ i) (tasks (disk (delete_task i w).2))
    = filter (fun r => col0 r ≠ i) (tasks (disk w))
  ∧ (∀ r, col0 r ≠ i →
       (r ∈ tasks (disk (update_task i td w).2) ↔ r ∈ tasks (disk w))
       ∧ (r ∈ tasks (disk (delete_task i w).2) ↔ r ∈ tasks (disk w))).
Proof.
  assert (Hu : filter (fun r => col0 r ≠ i) (tasks (disk (update_task i td w).2))
               = filter (fun r => col0 r ≠ i) (tasks (disk w))).
  { destruct (app_disk (PUT_tasks i td) w) as [Hd|Hd];
      rewrite app_world in Hd; rewrite Hd; [done|]. apply others_update. }
  assert (Hd : filter (fun r => col0 r ≠ i) (tasks (disk (delete_task i w).2))
               = filter (fun r => col0 r ≠ i) (tasks (disk w))).
  { destruct (app_disk (DELETE_tasks i) w) as [Hd|Hd];
      rewrite app_world in Hd; rewrite Hd; [done|]. apply others_delete. }
  split_and!; [done..|]. intros r Hr. split.
  - transitivity (r ∈ filter (fun r => col0 r ≠ i) (tasks (disk (update_task i td w).2))).
    + rewrite list_elem_of_filter. tauto.
    + rewrite Hu, list_elem_of_filter. tauto.
  - transitivity (r ∈ filter (fun r => col0 r ≠ i) (tasks (disk (delete_task i w).2))).
    + rewrite list_elem_of_filter. tauto.
    + rewrite Hd, list_elem_of_filter. tauto.
Qed.

Lemma other_tasks_unchanged_witness :
  (mkRow 1 "Buy milk" (Some "2%") false ∈ tasks (disk (update_task 2 td_milk
      (create_task td_whole w_milk).2).2)
   ↔ mkRow 1 "Buy milk" (Some "2%") false ∈ tasks (disk (create_task td_whole w_milk).2))
  ∧ (mkRow 1 "Buy milk" (Some "2%") false ∈ tasks (disk (delete_task 2
      (create_task td_whole w_milk).2).2)
   ↔ mkRow 1 "Buy milk" (Some "2%") false ∈ tasks (disk (create_task td_whole w_milk).2)).
Proof.
  destruct (other_tasks_unchanged 2 td_milk (create_task td_whole w_milk).2) as (_ & _ & H).
  apply (H (mkRow 1 "Buy milk" (Some "2%") false)). cbn. lia.
Defined.

(** * The connection *)

Section Connection.
Implicit Types (w : World) (i : Z) (td : TaskCreate.t).


End Connection.

(** C7: the claim fails on the code on the paths where [execute] or
    [commit] raises: no handler closes its connection there.  With the
    engine failing at the INSERT, create ends with OperationalError, the
    connection it opened still open and no close in its trace; and with an
    engine that does not fail at all, an update or a delete of the id
    9223372036854775808 ends with OverflowError and the connection still
    open, where the 404 path next to it closes the connection first. *)
Theorem connection_left_open :
  ((create_task td_milk w_fault).1 = Raise OperationalError
   ∧ conns (create_task td_milk w_fault).2 !! next_conn w_fault = Some None
   ∧ trace (create_task td_milk w_fault).2 = [EvConnect (next_conn w_fault)])
  ∧ (faults w_milk = []
     ∧ (update_task too_large td_whole w_milk).1 = Raise OverflowError
     ∧ conns (update_task too_large td_whole w_milk).2 !! next_conn w_milk = Some None
     ∧ trace (update_task too_large td_whole w_milk).2
       = trace w_milk ++ [EvConnect (next_conn w_milk)]
     ∧ (delete_task too_large w_milk).1 = Raise OverflowError
     ∧ conns (delete_task too_large w_milk).2 !! next_conn w_milk = Some None)
  ∧ ((update_task 7 td_whole w_milk).1 = Raise (HTTPException 404 "Task not found")
     ∧ conns (update_task 7 td_whole w_milk).2 !! next_conn w_milk = None).
Proof. split_and!; reflexivity. Qed.



(** * The POST route *)

(** C9: when create returns a task, POST /tasks/ answers with status 200,
    not 201, and with the JSON object of the id, title, description and
    completed of that task. *)
Theorem post_tasks_status_200 td w t w' :
  create_task td w = (Return t, w') →
  app (POST_tasks td) w =
    (mkResponse 200
       (JSONResponse (JObject [("id", JInt (TaskRead.id t));
                               ("title", JString (TaskCreate.title td));
                               ("description",
                                from_option JString JNull (TaskCreate.description td));
                               ("completed", JBool (TaskCreate.completed td))])), w')
  ∧ status_code (app (POST_tasks td) w).1 ≠ 201.
Proof.
  intros E. cbn [app]. unfold respond. rewrite E.
  apply create_task_Return in E as (-> & _). done.
Qed.

Lemma post_tasks_status_200_witness :
  app (POST_tasks td_milk) init_world =
    (mkResponse 200
       (JSONResponse (JObject [("id", JInt 1); ("title", JString "Buy milk");
                               ("description", JString "2%");
                               ("completed", JBool false)])), w_milk)
  ∧ status_code (app (POST_tasks td_milk) init_world).1 ≠ 201.
Proof.
  apply (post_tasks_status_200 td_milk init_world (task_from 1 td_milk) w_milk). reflexivity.
Defined.

(** * Further properties of the handlers *)

Section Statements.
Implicit Types (db : Database) (i j : Z) (r : Row).


Lemma next_rowid_positive db : 1 ≤ next_rowid db.
Proof.
  unfold next_rowid, max_rowid.
  assert (0 ≤ foldr Z.max 0 (ids db)) by (induction (ids db); cbn; lia). lia.
Qed.

(** An UPDATE or DELETE that names an absent id changes nothing. *)
Lemma update_absent db t d c i :
  i ∉ ids db → sql_update (UPDATE_tasks_SET_WHERE_id t d c i) db = db.
Proof.
  destruct db as [l s]. unfold ids. cbn. intros Hi. f_equal.
  induction l as [|r l IH]; [done|].
  rewrite fmap_cons in *. apply not_elem_of_cons in Hi as [Hr Hl].
  rewrite IH by done. unfold set_columns. rewrite decide_False; [done | congruence].
Qed.

Lemma delete_absent db i :
  i ∉ ids db → sql_update (DELETE_FROM_tasks_WHERE_id i) db = db.
Proof.
  destruct db as [l s]. unfold ids. cbn. intros Hi. f_equal.
  induction l as [|r l IH]; [done|].
  rewrite fmap_cons in Hi. apply not_elem_of_cons in Hi as [Hr Hl].
  rewrite filter_cons, decide_True by congruence. by rewrite IH.
Qed.

Lemma set_columns_twice t d c t' d' c' i r :
  set_columns t' d' c' i (set_columns t d c i r) = set_columns t' d' c' i r.
Proof.
  unfold set_columns. destruct (decide (col0 r = i)) as [Hr|Hr]; cbn.
  - by rewrite decide_True.
  - by rewrite decide_False.
Qed.

Lemma set_columns_comm t d c t' d' c' i j r :
  i ≠ j →
  set_columns t' d' c' j (set_columns t d c i r)
  = set_columns t d c i (set_columns t' d' c' j r).
Proof.
  intros Hij. unfold set_columns.
  destruct (decide (col0 r = i)) as [Hi|Hi], (decide (col0 r = j)) as [Hj|Hj]; cbn;
    repeat case_decide; congruence.
Qed.

Lemma update_update_comm db t d c t' d' c' i j :
  i ≠ j →
  sql_update (UPDATE_tasks_SET_WHERE_id t' d' c' j)
    (sql_update (UPDATE_tasks_SET_WHERE_id t d c i) db)
  = sql_update (UPDATE_tasks_SET_WHERE_id t d c i)
      (sql_update (UPDATE_tasks_SET_WHERE_id t' d' c' j) db).
Proof.
  intros Hij. cbn. f_equal. rewrite <- !list_fmap_compose.
  apply list_fmap_ext. intros _ r _. cbn. by apply set_columns_comm.
Qed.

Lemma update_delete_comm db t d c i j :
  i ≠ j →
  sql_update (DELETE_FROM_tasks_WHERE_id j)
    (sql_update (UPDATE_tasks_SET_WHERE_id t d c i) db)
  = sql_update (UPDATE_tasks_SET_WHERE_id t d c i)
      (sql_update (DELETE_FROM_tasks_WHERE_id j) db).
Proof.
  intros Hij. cbn. f_equal. induction (tasks db) as [|r l IH]; [done|].
  rewrite fmap_cons, !filter_cons, col0_set_columns.
  case_decide; [|done]. by rewrite fmap_cons, IH.
Qed.

Lemma delete_delete_comm db i j :
  sql_update (DELETE_FROM_tasks_WHERE_id j) (sql_update (DELETE_FROM_tasks_WHERE_id i) db)
  = sql_update (DELETE_FROM_tasks_WHERE_id i) (sql_update (DELETE_FROM_tasks_WHERE_id j) db).
Proof.
  cbn. f_equal. induction (tasks db) as [|r l IH]; [done|].
  rewrite !filter_cons.
  destruct (decide (col0 r ≠ i)), (decide (col0 r ≠ j));
    rewrite ?filter_cons, ?decide_True, ?decide_False by done; by rewrite ?IH.
Qed.

(** Deleting the one row of an id makes the table one row shorter. *)
Lemma delete_length db i :
  NoDup (ids db) → i ∈ ids db →
  (length (filter (fun r => col0 r ≠ i) (tasks db)) + 1 = length (tasks db))%nat.
Proof.
  unfold ids. induction (tasks db) as [|r l IH]; [by intros _ ?%elem_of_nil|].
  rewrite fmap_cons, NoDup_cons. intros [Hr Hl] Hi. rewrite filter_cons.
  destruct (decide (col0 r ≠ i)) as [Hne|Heq]; cbn.
  - apply elem_of_cons in Hi as [->|Hi]; [done|]. by rewrite IH.
  - assert (col0 r = i) as <- by (destruct (decide (col0 r = i)); [done | by destruct Heq]).
    clear IH Hi Heq. assert (Hall : filter (fun r' => col0 r' ≠ col0 r) l = l).
    { induction l as [|x l IH]; [done|]. rewrite fmap_cons in Hr.
      apply not_elem_of_cons in Hr as [Hx Hr]. apply NoDup_cons in Hl as [_ Hl].
      rewrite filter_cons, decide_True by congruence. by rewrite IH. }
    rewrite Hall. lia.
Qed.
End Statements.

Section Requests.
Implicit Types (w : World) (req : Request) (reqs : list Request) (i : Z).

(** With an engine that does not fail, the existence check decides the
    answer, never the stored data: the file after a request is what its
    statement, if it can be bound, makes of the file before. *)
Lemma app_disk_healthy req w :
  faults w = [] → disk (app req w).2 = committed req (disk w).
Proof.
  intros Hf. rewrite app_world. unfold committed.
  destruct req as [|td| |i td|i]; cbn [statement_of].
  - done.
  - destruct (create_task_healthy td w Hf) as (w' & E & _). rewrite E.
    by apply create_task_Return in E as (_ & ? & _).
  - apply get_tasks_disk.
  - unfold update_of. cbn [sql_bindable]. case_bool_decide as Hfit.
    + destruct (decide (i ∈ ids (disk w))) as [Hi|Hi].
      * destruct (update_task_healthy_present i td w Hf Hfit Hi) as (w' & E & _). rewrite E.
        by apply update_task_Return in E as (_ & _ & ? & _).
      * destruct (update_task_healthy_absent i td w Hf Hfit Hi) as (w' & E & _). rewrite E.
        apply update_task_Raise in E as [E _]. cbn [snd]. rewrite E.
        by rewrite update_absent.
    + destruct (update_task_overflow i td w Hfit) as (w' & -> & ? & _); [by rewrite Hf|].
      done.
  - unfold delete_of. cbn [sql_bindable]. case_bool_decide as Hfit.
    + destruct (decide (i ∈ ids (disk w))) as [Hi|Hi].
      * destruct (delete_task_healthy_present i w Hf Hfit Hi) as (w' & E & _). rewrite E.
        by apply delete_task_Return in E as (_ & _ & ? & _).
      * destruct (delete_task_healthy_absent i w Hf Hfit Hi) as (w' & E & _). rewrite E.
        apply delete_task_Raise in E as [E _]. cbn [snd]. rewrite E.
        by rewrite delete_absent.
    + destruct (delete_task_overflow i w Hfit) as (w' & -> & ? & _); [by rewrite Hf|].
      done.
Qed.

Lemma serve_cons req reqs w : serve (req :: reqs) w = serve reqs (app req w).2.
Proof. done. Qed.



Lemma serve_two_healthy req1 req2 w :
  faults w = [] →
  disk (serve [req1; req2] w) = committed req2 (committed req1 (disk w)).
Proof.
  intros Hf. cbn. rewrite app_disk_healthy by by apply app_healthy.
  by rewrite app_disk_healthy.
Qed.

Lemma serve_reads reqs w :
  forallb is_get reqs = true → disk (serve reqs w) = disk w.
Proof.
  revert w. induction reqs as [|req reqs IH]; intros w Hget; [done|].
  cbn in Hget. apply andb_prop in Hget as [Hreq Hget].
  rewrite serve_cons, (IH _ Hget), app_world.
  destruct req; try done. apply get_tasks_disk.
Qed.

Lemma serve_sequence_mono reqs w :
  sqlite_sequence (disk w) ≤ sqlite_sequence (disk (serve reqs w)).
Proof.
  apply (serve_invariant (fun db => sqlite_sequence (disk w) ≤ sqlite_sequence db));
    [|done].
  intros req db _ Hle. pose proof (sqlite_sequence_mono (statement_of req) db). lia.
Qed.
End Requests.

(** ** Listing *)

(** X2: a listing that returns has one task per row of the table, in the
    order of the table and with the row's four columns, and leaves the file
    as it was. *)
Theorem get_tasks_reads_table w l w' :
  get_tasks w = (Return l, w') →
  row_of <$> l = tasks (disk w)
  ∧ TaskRead.id <$> l = ids (disk w)
  ∧ length l = length (tasks (disk w))
  ∧ disk w' = disk w.
Proof.
  intros (-> & Hd & _)%get_tasks_Return. split_and!; [| |by rewrite length_fmap|done].
  - rewrite <- list_fmap_compose. rewrite <- (list_fmap_id (tasks (disk w))) at 2.
    apply list_fmap_ext. by intros _ [] _.
  - unfold ids. rewrite <- list_fmap_compose. by apply list_fmap_ext.
Qed.

Lemma get_tasks_reads_table_witness :
  row_of <$> [task_from 1 td_milk] = tasks (disk w_milk)
  ∧ TaskRead.id <$> [task_from 1 td_milk] = ids (disk w_milk)
  ∧ length [task_from 1 td_milk] = length (tasks (disk w_milk))
  ∧ disk (get_tasks w_milk).2 = disk w_milk.
Proof. apply (get_tasks_reads_table w_milk). reflexivity. Defined.

(** X3: reads repeat: two listings that return, with only GET requests
    served in between, return the same list. *)
Theorem get_tasks_repeatable reqs w l w1 l' w2 :
  forallb is_get reqs = true →
  get_tasks w = (Return l, w1) →
  get_tasks (serve reqs w1) = (Return l', w2) →
  l' = l.
Proof.
  intros Hget (-> & Hd & _)%get_tasks_Return (-> & _)%get_tasks_Return.
  by rewrite (serve_reads reqs w1 Hget), Hd.
Qed.

Lemma get_tasks_repeatable_witness : [task_from 1 td_milk] = [task_from 1 td_milk].
Proof.
  apply (get_tasks_repeatable [GET_tasks; GET_root] w_milk _ (get_tasks w_milk).2 _
           (get_tasks (serve [GET_tasks; GET_root] (get_tasks w_milk).2)).2);
    reflexivity.
Defined.

(** ** Failure is atomic *)

(** X4: a request that is not answered with 200 leaves the file exactly as
    it was, whatever the engine did before it failed: a write that was
    executed but not committed is lost. *)
Theorem failed_request_keeps_file req w :
  status_code (app req w).1 ≠ 200 → disk (app req w).2 = disk w.
Proof.
  destruct req as [|td| |i td|i]; cbn [app]; unfold respond.
  - done.
  - destruct (create_task td w) as [[t|e] w'] eqn:E; [done|].
    intros _. apply create_task_Raise in E as [_ E]. by destruct e.
  - intros _. pose proof (get_tasks_disk w) as E.
    by destruct (get_tasks w) as [[t|[]] w'].
  - destruct (update_task i td w) as [[t|e] w'] eqn:E; [done|].
    intros _. apply update_task_Raise in E as [E _]. by destruct e.
  - destruct (delete_task i w) as [[t|e] w'] eqn:E; [done|].
    intros _. apply delete_task_Raise in E as [E _]. by destruct e.
Qed.

Lemma failed_request_keeps_file_witness :
  disk (app (POST_tasks td_milk) w_commit_fault).2 = disk w_commit_fault.
Proof. apply (failed_request_keeps_file (POST_tasks td_milk) w_commit_fault). by vm_compute. Defined.

(** ** Ids *)

(** X5: the ids that creates hand out are positive and strictly increasing
    over the life of the store: a create served after an earlier one,
    whatever requests came in between and whatever they deleted, returns a
    larger id. *)
Theorem create_task_ids_increase td td' reqs w t w1 t' w2 :
  create_task td w = (Return t, w1) →
  create_task td' (serve reqs w1) = (Return t', w2) →
  1 ≤ TaskRead.id t ∧ TaskRead.id t < TaskRead.id t'.
Proof.
  intros (-> & Hd & _)%create_task_Return (-> & _)%create_task_Return.
  cbn [task_from TaskRead.id]. split; [apply next_rowid_positive|].
  pose proof (serve_sequence_mono reqs w1) as Hmono. rewrite Hd in Hmono at 1.
  cbn in Hmono. pose proof (next_rowid_above (disk (serve reqs w1))). lia.
Qed.

Lemma create_task_ids_increase_witness :
  1 ≤ TaskRead.id (task_from 1 td_milk)
  ∧ TaskRead.id (task_from 1 td_milk) < TaskRead.id (task_from 2 td_whole).
Proof.
  apply (create_task_ids_increase td_milk td_whole [DELETE_tasks 1; GET_tasks] init_world
           (task_from 1 td_milk) w_milk (task_from 2 td_whole)
           (create_task td_whole (serve [DELETE_tasks 1; GET_tasks] w_milk)).2);
    reflexivity.
Defined.

(** ** Deleting *)

(** X6: a delete that returns answers with the message naming the id; the
    id was in the table; the table afterwards is the old one without the
    rows of that id, so the id is gone, the AUTOINCREMENT counter is as it
    was, a table of unique ids is exactly one row shorter, and a listing
    that follows shows no task of that id. *)
Theorem delete_task_removes i w j w' :
  delete_task i w = (Return j, w') →
  j = JObject [("message", JString ("Task " +:+ str i +:+ " deleted successfully"))]
  ∧ i ∈ ids (disk w)
  ∧ tasks (disk w') = filter (fun r => col0 r ≠ i) (tasks (disk w))
  ∧ (i ∉ ids (disk w'))
  ∧ sqlite_sequence (disk w') = sqlite_sequence (disk w)
  ∧ (NoDup (ids (disk w)) → (length (tasks (disk w')) + 1 = length (tasks (disk w)))%nat)
  ∧ (∀ l w'', get_tasks w' = (Return l, w'') → ∀ t, t ∈ l → TaskRead.id t ≠ i).
Proof.
  intros (-> & Hi & Hd & _)%delete_task_Return.
  assert (Hgone : i ∉ ids (disk w')).
  { rewrite Hd. unfold delete_of. rewrite ids_delete.
    by intros [Hne _]%list_elem_of_filter. }
  split_and!; try done.
  - by rewrite Hd.
  - by rewrite Hd.
  - intros Hnd. rewrite Hd. by apply delete_length.
  - intros l w'' (-> & _)%get_tasks_Return t (r & -> & Hr)%list_elem_of_fmap Hid.
    cbn in Hid. apply Hgone. rewrite <- Hid. by apply list_elem_of_fmap_2.
Qed.

Lemma delete_task_removes_witness :
  deleted_message 1 = JObject [("message", JString ("Task " +:+ str 1 +:+ " deleted successfully"))]
  ∧ 1 ∈ ids (disk w_milk)
  ∧ tasks (disk (delete_task 1 w_milk).2) = filter (fun r => col0 r ≠ 1) (tasks (disk w_milk))
  ∧ (1 ∉ ids (disk (delete_task 1 w_milk).2))
  ∧ sqlite_sequence (disk (delete_task 1 w_milk).2) = sqlite_sequence (disk w_milk)
  ∧ (NoDup (ids (disk w_milk)) →
     (length (tasks (disk (delete_task 1 w_milk).2)) + 1 = length (tasks (disk w_milk)))%nat)
  ∧ (∀ l w'', get_tasks (delete_task 1 w_milk).2 = (Return l, w'') →
       ∀ t, t ∈ l → TaskRead.id t ≠ 1).
Proof. apply (delete_task_removes 1 w_milk). reflexivity. Defined.

(** ** What the routes answer *)







(** ** How updates and deletes compose *)

(** X8: the last update wins: after two updates of one id that both return,
    the file is what the second alone would have made of the first file;
    in particular repeating an update changes nothing more. *)
Theorem update_task_last_write_wins i td1 td2 w t1 w1 t2 w2 :
  update_task i td1 w = (Return t1, w1) →
  update_task i td2 w1 = (Return t2, w2) →
  disk w2 = sql_update (update_of i td2) (disk w)
  ∧ (∀ t w2', update_task i td2 w = (Return t, w2') → t = t2 ∧ disk w2' = disk w2).
Proof.
  intros (_ & _ & Hd1 & _)%update_task_Return (-> & _ & Hd2 & _)%update_task_Return.
  assert (Hd : disk w2 = sql_update (update_of i td2) (disk w)).
  { rewrite Hd2, Hd1. cbn. f_equal. rewrite <- list_fmap_compose.
    apply list_fmap_ext. intros _ r _. cbn. apply set_columns_twice. }
  split; [done|]. intros t w2' (-> & _ & Hd' & _)%update_task_Return.
  by rewrite Hd', Hd.
Qed.

Lemma update_task_last_write_wins_witness :
  disk (update_task 1 td_whole (update_task 1 td_milk w_milk).2).2
  = sql_update (update_of 1 td_whole) (disk w_milk)
  ∧ (∀ t w2', update_task 1 td_whole w_milk = (Return t, w2') →
       t = task_from 1 td_whole
       ∧ disk w2' = disk (update_task 1 td_whole (update_task 1 td_milk w_milk).2).2).
Proof.
  apply (update_task_last_write_wins 1 td_milk td_whole w_milk (task_from 1 td_milk)
           (update_task 1 td_milk w_milk).2); reflexivity.
Defined.

(** X9: with an engine that does not fail, requests on different ids can be
    served in either order: two PUTs, or a PUT and a DELETE, of different
    ids leave the same file both ways round, and so do two DELETEs of any
    ids. *)
Theorem requests_on_distinct_ids_commute i j a b w :
  faults w = [] → i ≠ j →
  disk (serve [PUT_tasks i a; PUT_tasks j b] w)
  = disk (serve [PUT_tasks j b; PUT_tasks i a] w)
  ∧ disk (serve [PUT_tasks i a; DELETE_tasks j] w)
    = disk (serve [DELETE_tasks j; PUT_tasks i a] w)
  ∧ disk (serve [DELETE_tasks i; DELETE_tasks j] w)
    = disk (serve [DELETE_tasks j; DELETE_tasks i] w).
Proof.
  intros Hf Hij. rewrite !serve_two_healthy by done.
  unfold committed. cbn [statement_of]. unfold update_of, delete_of. cbn [sql_bindable].
  destruct (bool_decide (int64 i)), (bool_decide (int64 j)); split_and!; try done.
  - by apply update_update_comm.
  - by apply update_delete_comm.
  - apply delete_delete_comm.
Qed.

Lemma requests_on_distinct_ids_commute_witness :
  disk (serve [PUT_tasks 1 td_whole; PUT_tasks 2 td_milk] (create_task td_whole w_milk).2)
  = disk (serve [PUT_tasks 2 td_milk; PUT_tasks 1 td_whole] (create_task td_whole w_milk).2)
  ∧ disk (serve [PUT_tasks 1 td_whole; DELETE_tasks 2] (create_task td_whole w_milk).2)
    = disk (serve [DELETE_tasks 2; PUT_tasks 1 td_whole] (create_task td_whole w_milk).2)
  ∧ disk (serve [DELETE_tasks 1; DELETE_tasks 2] (create_task td_whole w_milk).2)
    = disk (serve [DELETE_tasks 2; DELETE_tasks 1] (create_task td_whole w_milk).2).
Proof.
  apply (requests_on_distinct_ids_commute 1 2 td_whole td_milk (create_task td_whole w_milk).2);
    [reflexivity | lia].
Defined.

(** ** The store the server keeps *)

(** X10: whatever requests are served and whenever the engine fails, a
    store whose ids are unique, positive and not above the AUTOINCREMENT
    counter stays such a store; the fresh store is one. *)
Theorem served_store_stays_ok reqs w :
  store_ok (disk w) → Forall (fun i => 1 ≤ i) (ids (disk w)) →
  NoDup (ids (disk (serve reqs w)))
  ∧ Forall (fun i => 1 ≤ i ≤ sqlite_sequence (disk (serve reqs w))) (ids (disk (serve reqs w))).
Proof.
  intros Hok Hpos.
  assert (H : store_ok (disk (serve reqs w))
              ∧ Forall (fun i => 1 ≤ i) (ids (disk (serve reqs w)))).
  { apply (serve_invariant (fun db => store_ok db ∧ Forall (fun i => 1 ≤ i) (ids db)));
      [|done].
    intros req db _ [Hdb Hp]. split; [by apply store_ok_sql_update|].
    destruct req as [|td| |i td|i]; cbn [statement_of]; try done.
    - unfold insert_of. rewrite ids_insert. apply Forall_app. split; [done|].
      apply Forall_singleton, next_rowid_positive.
    - unfold update_of. by rewrite ids_update.
    - unfold delete_of. rewrite ids_delete. apply Forall_forall.
      intros k [_ Hk]%list_elem_of_filter. by eapply Forall_forall in Hp. }
  destruct H as [[Hnd Hle] Hp]. split; [done|].
  apply Forall_forall. intros k Hk. split.
  - by eapply Forall_forall in Hp.
  - by eapply Forall_forall in Hle.
Qed.

Lemma served_store_stays_ok_witness :
  NoDup (ids (disk (serve [POST_tasks td_milk; POST_tasks td_whole; DELETE_tasks 1;
                           POST_tasks td_milk] w_commit_fault)))
  ∧ Forall (fun i => 1 ≤ i ≤ sqlite_sequence
              (disk (serve [POST_tasks td_milk; POST_tasks td_whole; DELETE_tasks 1;
                            POST_tasks td_milk] w_commit_fault)))
      (ids (disk (serve [POST_tasks td_milk; POST_tasks td_whole; DELETE_tasks 1;
                         POST_tasks td_milk] w_commit_fault))).
Proof.
  apply (served_store_stays_ok _ w_commit_fault); [apply store_ok_init | constructor].
Defined.



(** X14: create then delete of the created id is a round trip on the table:
    the rows are those from before the create, in place; only the
    AUTOINCREMENT counter remembers the id, which is thereby used up. *)
Theorem create_then_delete_restores_table td w t w1 j w2 :
  create_task td w = (Return t, w1) →
  delete_task (TaskRead.id t) w1 = (Return j, w2) →
  tasks (disk w2) = tasks (disk w)
  ∧ sqlite_sequence (disk w2) = TaskRead.id t
  ∧ TaskRead.id t < next_rowid (disk w2).
Proof.
  intros (-> & Hd1 & _)%create_task_Return (_ & _ & Hd2 & _)%delete_task_Return.
  cbn [task_from TaskRead.id] in *.
  assert (Hseq : sqlite_sequence (disk w2) = next_rowid (disk w)) by by rewrite Hd2, Hd1.
  split_and!; [|done|].
  - rewrite Hd2, Hd1. cbn. rewrite filter_app, filter_cons, decide_False by (cbn; tauto).
    rewrite filter_nil, app_nil_r.
    pose proof (delete_absent (disk w) (next_rowid (disk w)) (next_rowid_fresh _)) as Hall.
    by apply (f_equal tasks) in Hall.
  - pose proof (next_rowid_above (disk w2)). lia.
Qed.

Lemma create_then_delete_restores_table_witness :
  tasks (disk (delete_task 2 (create_task td_whole w_milk).2).2) = tasks (disk w_milk)
  ∧ sqlite_sequence (disk (delete_task 2 (create_task td_whole w_milk).2).2)
    = TaskRead.id (task_from 2 td_whole)
  ∧ TaskRead.id (task_from 2 td_whole)
    < next_rowid (disk (delete_task 2 (create_task td_whole w_milk).2).2).
Proof.
  apply (create_then_delete_restores_table td_whole w_milk (task_from 2 td_whole)
           (create_task td_whole w_milk).2 (deleted_message 2)); reflexivity.
Defined.
